(** * DefaultAnsiStyle: the merged Pygments style mapping

    Source: carta-controller-v2/docs/src/style.py

      class DefaultAnsiStyle(DefaultStyle):
          styles = dict(DefaultStyle.styles)
          styles.update(color_tokens())

    The class body copies the inherited style dictionary into a new
    dictionary and updates the copy in place with the ANSI colour tokens.
    A Python [dict] is modelled as the list of its items in insertion
    order; the objects of the interpreter live in a store indexed by
    references, so that copying and in-place update can be told apart. *)

From stdpp Require Import gmap strings list fin_maps.

Set Default Proof Using "Type*".

(** ** Python dictionaries, as insertion-ordered item lists *)

(** The items of a dictionary, oldest insertion first. *)
Abbreviation pydict K V := (list (K * V)).

Section pydict.
Context {K V : Type} `{Countable K}.
Implicit Types (d other : pydict K V).

(** [d.keys()], in iteration order. *)
Definition dict_keys d : list K := d.*1.

(** [set(d)]: the keys with the order forgotten. *)
Definition dict_keyset d : gset K := list_to_set (dict_keys d).

(** The representation invariant of a dictionary: keys are unique. *)
Definition dict_wf d : Prop := NoDup (dict_keys d).

(** [d[k]]; [None] stands for [KeyError]. *)
Fixpoint dict_getitem (k : K) d : option V :=
  match d with
  | [] => None
  | (k', v') :: d' => if decide (k' = k) then Some v' else dict_getitem k d'
  end.

(** [d[k] = v]: an existing key keeps its slot and gets the new value,
    a new key is appended after all existing ones. *)
Fixpoint dict_setitem (k : K) (v : V) d : pydict K V :=
  match d with
  | [] => [(k, v)]
  | (k', v') :: d' =>
      if decide (k' = k) then (k', v) :: d'
      else (k', v') :: dict_setitem k v d'
  end.

(** [d.update(other)]: every item of [other], in [other]'s iteration
    order, is stored into [d]. *)
Definition dict_update d other : pydict K V :=
  fold_left (λ acc kv, dict_setitem kv.1 kv.2 acc) other d.

(** [dict(other)]: a new empty dictionary, filled from [other]. *)
Definition dict_new other : pydict K V := dict_update [] other.

(** The value bound to [styles] when the class body has run, as a
    function of [DefaultStyle.styles] and of the result of
    [color_tokens()]. *)
Definition DefaultAnsiStyle_styles
    (DefaultStyle_styles color_tokens : pydict K V) : pydict K V :=
  let styles := dict_new DefaultStyle_styles in
  dict_update styles color_tokens.

(** The name the specification gives to that operation. *)
Definition merge (base overlay : pydict K V) : pydict K V :=
  DefaultAnsiStyle_styles base overlay.

(** [a == b] on dictionaries: same number of items, and every item of
    [a] is found in [b] with an equal value. *)
Definition dict_eq `{EqDecision V} (a b : pydict K V) : bool :=
  bool_decide (length a = length b)
  && forallb (λ kv, bool_decide (dict_getitem kv.1 b = Some kv.2)) a.
End pydict.

(** ** The object store and the class body as a stateful program *)

(** References to dictionary objects. *)
Abbreviation ref := positive (only parsing).

Section store.
Context {K V : Type} `{Countable K}.

(** The dictionary objects that are alive, by reference. *)
Local Abbreviation store := (gmap ref (pydict K V)) (only parsing).

(** Computations that read and write the store and may raise. *)
Definition Py (A : Type) : Type := store → option (A * store).

Definition py_ret {A} (a : A) : Py A := λ σ, Some (a, σ).

Definition py_bind {A B} (m : Py A) (f : A → Py B) : Py B :=
  λ σ, match m σ with
       | Some (a, σ') => f a σ'
       | None => None
       end.

Notation "'let*' x ':=' m 'in' k" := (py_bind m (λ x, k))
  (at level 10, x pattern, m at level 100, k at level 200, only parsing).

(** A new object holding [d], at a reference not in use. *)
Definition py_alloc (d : pydict K V) : Py ref :=
  λ σ, let r := fresh (dom σ) in Some (r, <[r := d]> σ).

(** The items of the object at [r]; fails on a dangling reference. *)
Definition py_items (r : ref) : Py (pydict K V) :=
  λ σ, match σ !! r with
       | Some d => Some (d, σ)
       | None => None
       end.

(** [r[k] = v], mutating the object at [r]. *)
Definition py_setitem (r : ref) (k : K) (v : V) : Py unit :=
  λ σ, match σ !! r with
       | Some d => Some ((), <[r := dict_setitem k v d]> σ)
       | None => None
       end.

(** The loop of [update]: store the items one after the other. *)
Fixpoint py_store_items (r : ref) (kvs : list (K * V)) : Py unit :=
  match kvs with
  | [] => py_ret ()
  | kv :: kvs' =>
      let* _ := py_setitem r kv.1 kv.2 in
      py_store_items r kvs'
  end.

(** [r.update(other)]: the object at [r] is changed in place, the one at
    [other] is only read. *)
Definition py_update (r other : ref) : Py unit :=
  let* kvs := py_items other in
  py_store_items r kvs.

(** [dict(other)]: allocate an empty dictionary and fill it. *)
Definition py_dict (other : ref) : Py ref :=
  let* r := py_alloc [] in
  let* _ := py_update r other in
  py_ret r.

(** The body of [class DefaultAnsiStyle]. [DefaultStyle_styles] is the
    object the inherited attribute refers to and [color_tokens] the
    object the call [color_tokens()] evaluates to; the result is the
    reference bound to [styles]. *)
Definition DefaultAnsiStyle_body
    (DefaultStyle_styles color_tokens : ref) : Py ref :=
  let* styles := py_dict DefaultStyle_styles in
  let* _ := py_update styles color_tokens in
  py_ret styles.
End store.

(** ** The example of the specification *)

Definition exk : string := "keyword".
Definition exc : string := "comment".

Definition exB : pydict string string :=
  [("keyword", "bold blue"); ("comment", "italic gray")].
Definition exO : pydict string string :=
  [("ansi-red", "red"); ("keyword", "bold red")].
Definition exR : pydict string string :=
  [("keyword", "bold red"); ("comment", "italic gray"); ("ansi-red", "red")].

(** A store in which the two input dictionaries of the example are the
    objects 1 and 2. *)
Definition exS : gmap ref (pydict string string) :=
  <[2%positive := exO]> (<[1%positive := exB]> ∅).

(** ** Views and relations on dictionaries used to state further facts *)

Section pydict_relations.
Context {K V : Type} `{Countable K}.

(** The dictionary as a finite map, with the order forgotten. *)
Definition dict_to_map (d : pydict K V) : gmap K V := list_to_map d.

(** Every item of [o] is already stored in [d] with the same value. *)
Definition dict_covers (d o : pydict K V) : Prop :=
  Forall (λ kv, dict_getitem kv.1 d = Some kv.2) o.

(** [a] and [b] give the same value to every key they share. *)
Definition dict_compatible (a b : pydict K V) : Prop :=
  Forall (λ kv, dict_getitem kv.1 b = None ∨ dict_getitem kv.1 b = Some kv.2)
    a.
End pydict_relations.

(** Further dictionaries over the keys of the example. *)
Definition exC : pydict string string :=
  [("comment", "gray"); ("ansi-blue", "blue")].
Definition exD : pydict string string :=
  [("ansi-red", "red"); ("comment", "italic gray")].
Definition exE : pydict string string :=
  [("ansi-red", "red"); ("ansi-blue", "blue")].
Definition exm : string := "missing".

(** ** Facts about single dictionary operations *)

Section pydict_facts.
Context {K V : Type} `{Countable K}.
Implicit Types (k : K) (v : V) (d o : pydict K V).

Lemma dict_getitem_None k d :
  dict_getitem k d = None ↔ k ∉ dict_keys d.
Proof.
  induction d as [|[k' v'] d IH]; simpl.
  - split; [intros _; apply not_elem_of_nil | done].
  - rewrite not_elem_of_cons. case_decide; subst.
    + split; [done | intros [? _]; done].
    + rewrite IH. split; [by split | by intros [_ ?]].
Qed.

Lemma dict_getitem_is_Some k d :
  is_Some (dict_getitem k d) ↔ k ∈ dict_keys d.
Proof.
  rewrite <- not_eq_None_Some, dict_getitem_None.
  split; [apply dec_stable | auto].
Qed.

Lemma dict_getitem_elem_of k v d :
  dict_getitem k d = Some v → (k, v) ∈ d.
Proof.
  induction d as [|[k' v'] d IH]; simpl; [done|].
  case_decide; subst.
  - intros [= ->]. left.
  - intros. right. auto.
Qed.

Lemma dict_elem_of_getitem k v d :
  dict_wf d → (k, v) ∈ d → dict_getitem k d = Some v.
Proof.
  unfold dict_wf, dict_keys.
  induction d as [|[k' v'] d IH]; simpl.
  - intros _ Hin. by apply elem_of_nil in Hin.
  - rewrite NoDup_cons, elem_of_cons. intros [Hk' Hd] [[= -> ->]|Hin].
    + by rewrite decide_True.
    + rewrite decide_False; [auto|].
      intros ->. apply Hk'. by apply (list_elem_of_fmap_2 fst) in Hin.
Qed.

Lemma dict_getitem_setitem k k' v d :
  dict_getitem k' (dict_setitem k v d)
  = if decide (k = k') then Some v else dict_getitem k' d.
Proof.
  induction d as [|[k0 v0] d IH]; simpl.
  - repeat case_decide; congruence.
  - destruct (decide (k0 = k)) as [->|Hk0]; simpl.
    + by destruct (decide (k = k')).
    + rewrite IH. destruct (decide (k0 = k')) as [->|Hk0']; [|done].
      by rewrite decide_False.
Qed.

Lemma dict_setitem_absent k v d :
  k ∉ dict_keys d → dict_setitem k v d = d ++ [(k, v)].
Proof.
  induction d as [|[k0 v0] d IH]; simpl; [done|].
  rewrite not_elem_of_cons. intros [Hne Hd].
  rewrite decide_False by done. by rewrite IH.
Qed.

Lemma dict_setitem_same k v d :
  dict_getitem k d = Some v → dict_setitem k v d = d.
Proof.
  induction d as [|[k0 v0] d IH]; simpl; [done|].
  case_decide; [by intros [= ->] | intros; by rewrite IH].
Qed.

Lemma dict_keys_setitem_present k v d :
  k ∈ dict_keys d → dict_keys (dict_setitem k v d) = dict_keys d.
Proof.
  induction d as [|[k0 v0] d IH]; simpl.
  - intros Hin. by apply elem_of_nil in Hin.
  - case_decide; [done|]. rewrite elem_of_cons. intros [->|Hin]; [done|].
    simpl. f_equal. by apply IH.
Qed.

Lemma dict_keys_setitem k v d :
  dict_keys (dict_setitem k v d)
  = if decide (k ∈ dict_keys d) then dict_keys d else dict_keys d ++ [k].
Proof.
  case_decide.
  - by apply dict_keys_setitem_present.
  - rewrite dict_setitem_absent by done. unfold dict_keys.
    by rewrite fmap_app.
Qed.

Lemma dict_setitem_wf k v d : dict_wf d → dict_wf (dict_setitem k v d).
Proof.
  unfold dict_wf. rewrite dict_keys_setitem. case_decide; [done|].
  intros Hd. apply NoDup_app. split_and!; [done| |apply NoDup_singleton].
  intros x Hx ->%list_elem_of_singleton. done.
Qed.

Lemma dict_keyset_setitem k v d :
  dict_keyset (dict_setitem k v d) = dict_keyset d ∪ {[k]}.
Proof.
  unfold dict_keyset. rewrite dict_keys_setitem. case_decide.
  - apply set_eq. intros x. rewrite elem_of_union, !elem_of_list_to_set.
    rewrite elem_of_singleton. split; [auto | by intros [?| ->]].
  - rewrite list_to_set_app_L. simpl. by rewrite (right_id_L ∅ (∪)).
Qed.
End pydict_facts.

(** ** Facts about [update] and [dict] *)

Section update_facts.
Context {K V : Type} `{Countable K}.
Implicit Types (k : K) (v : V) (d o : pydict K V).

Lemma filter_agree {A} (P Q : A → Prop)
    `{∀ x, Decision (P x)} `{∀ x, Decision (Q x)} (l : list A) :
  (∀ x, x ∈ l → P x ↔ Q x) → filter P l = filter Q l.
Proof.
  induction l as [|a l IH]; intros HPQ; [done|].
  assert (filter P l = filter Q l) as Hl.
  { apply IH. intros x Hx. apply HPQ. by right. }
  destruct (decide (P a)) as [HP|HP].
  - rewrite !filter_cons_True; [by rewrite Hl | | done].
    apply HPQ; [left | done].
  - rewrite !filter_cons_False; [done | | done].
    intros HQ. apply HP, HPQ; [left | done].
Qed.

Lemma dict_update_nil d : dict_update d [] = d.
Proof. done. Qed.

Lemma dict_update_cons d k v o :
  dict_update d ((k, v) :: o) = dict_update (dict_setitem k v d) o.
Proof. done. Qed.

Lemma dict_update_wf d o : dict_wf d → dict_wf (dict_update d o).
Proof.
  revert d. induction o as [|[k v] o IH]; intros d Hd; [done|].
  rewrite dict_update_cons. by apply IH, dict_setitem_wf.
Qed.

Lemma dict_new_wf o : dict_wf (dict_new o).
Proof. apply dict_update_wf, NoDup_nil_2. Qed.

(** Updating with items whose keys are all new appends them. *)
Lemma dict_update_disjoint d o :
  dict_wf (d ++ o) → dict_update d o = d ++ o.
Proof.
  unfold dict_wf, dict_keys.
  revert d. induction o as [|[k v] o IH]; intros d Hwf.
  - by rewrite dict_update_nil, app_nil_r.
  - rewrite dict_update_cons, dict_setitem_absent.
    + rewrite IH; rewrite <- (assoc_L (++)); done.
    + rewrite fmap_app in Hwf. apply NoDup_app in Hwf as (_ & Hdis & _).
      intros Hk. apply (Hdis k Hk). left.
Qed.

(** Copying a dictionary gives its items back, in the same order. *)
Lemma dict_new_id d : dict_wf d → dict_new d = d.
Proof. intros Hd. unfold dict_new. by rewrite dict_update_disjoint. Qed.

Lemma dict_keyset_update d o :
  dict_keyset (dict_update d o) = dict_keyset d ∪ dict_keyset o.
Proof.
  revert d. induction o as [|[k v] o IH]; intros d.
  - rewrite dict_update_nil. unfold dict_keyset at 3. simpl.
    by rewrite (right_id_L ∅ (∪)).
  - rewrite dict_update_cons, IH, dict_keyset_setitem.
    unfold dict_keyset at 4. simpl. fold (dict_keys o).
    fold (dict_keyset o). by rewrite <- (assoc_L (∪)).
Qed.

(** After an update, a key reads as in [o] if [o] has it and as before
    otherwise. *)
Lemma dict_getitem_update k d o :
  dict_wf o →
  dict_getitem k (dict_update d o)
  = match dict_getitem k o with
    | Some v => Some v
    | None => dict_getitem k d
    end.
Proof.
  unfold dict_wf, dict_keys.
  revert d. induction o as [|[k0 v0] o IH]; intros d Ho; [done|].
  simpl in Ho. apply NoDup_cons in Ho as [Hk0 Ho].
  rewrite dict_update_cons, IH by done. simpl.
  rewrite dict_getitem_setitem.
  destruct (decide (k0 = k)) as [->|Hne]; [|done].
  apply dict_getitem_None in Hk0. by rewrite Hk0.
Qed.

Lemma dict_getitem_update_absent k d o :
  k ∉ dict_keys o → dict_getitem k (dict_update d o) = dict_getitem k d.
Proof.
  revert d. induction o as [|[k0 v0] o IH]; intros d Hk; [done|].
  unfold dict_keys in Hk. rewrite fmap_cons in Hk.
  apply not_elem_of_cons in Hk as [Hne Ho].
  rewrite dict_update_cons, IH, dict_getitem_setitem by done.
  by rewrite decide_False.
Qed.

(** An update that only stores values already there changes nothing. *)
Lemma dict_update_same d o :
  (∀ k v, (k, v) ∈ o → dict_getitem k d = Some v) → dict_update d o = d.
Proof.
  induction o as [|[k v] o IH]; intros Hsame; [done|].
  rewrite dict_update_cons, dict_setitem_same.
  - apply IH. intros k' v' Hin. apply Hsame. by right.
  - apply Hsame. left.
Qed.

(** The keys after an update, in iteration order. *)
Lemma dict_keys_update d o :
  dict_wf o →
  dict_keys (dict_update d o)
  = dict_keys d ++ filter (λ k, k ∉ dict_keys d) (dict_keys o).
Proof.
  unfold dict_wf.
  revert d. induction o as [|[k0 v0] o IH]; intros d Ho.
  - by rewrite dict_update_nil, app_nil_r.
  - simpl in Ho. apply NoDup_cons in Ho as [Hk0 Ho].
    rewrite dict_update_cons, IH, dict_keys_setitem by done. simpl.
    destruct (decide (k0 ∈ dict_keys d)) as [Hin|Hnin].
    + by rewrite filter_cons_False by (by intros ?).
    + rewrite filter_cons_True by done.
      rewrite <- (assoc_L (++)). simpl. do 2 f_equal.
      apply filter_agree. intros x Hx.
      rewrite elem_of_app, list_elem_of_singleton.
      split; [by intros Hn ?; apply Hn; left|].
      intros Hn [?| ->]; [by apply Hn | by apply Hk0].
Qed.

(** Two dictionaries with the same keys in the same order and the same
    value under every key are the same item list. *)
Lemma dict_ext d1 d2 :
  dict_wf d1 →
  dict_keys d1 = dict_keys d2 →
  (∀ k, dict_getitem k d1 = dict_getitem k d2) →
  d1 = d2.
Proof.
  unfold dict_wf, dict_keys.
  revert d2. induction d1 as [|[k1 v1] d1 IH]; intros [|[k2 v2] d2];
    csimpl; try done.
  intros [Hk1 Hd1]%NoDup_cons [= -> Hkeys] Hget.
  pose proof (Hget k2) as Hk2. simpl in Hk2.
  rewrite !decide_True in Hk2 by done. injection Hk2 as ->.
  f_equal. apply IH; [done..|].
  intros k. destruct (decide (k2 = k)) as [<-|Hne].
  - transitivity (@None V); [|symmetry]; apply dict_getitem_None.
    + done.
    + unfold dict_keys. by rewrite <- Hkeys.
  - specialize (Hget k). simpl in Hget. by rewrite !decide_False in Hget.
Qed.

Lemma dict_getitem_app k d1 d2 :
  dict_getitem k (d1 ++ d2)
  = match dict_getitem k d1 with
    | Some v => Some v
    | None => dict_getitem k d2
    end.
Proof.
  induction d1 as [|[k1 v1] d1 IH]; simpl; [done|]. by case_decide.
Qed.

Lemma dict_keys_app d1 d2 :
  dict_keys (d1 ++ d2) = dict_keys d1 ++ dict_keys d2.
Proof. apply fmap_app. Qed.

(** Reading after the values have been changed key by key. *)
Lemma dict_getitem_revalue (f : K → V → V) k d :
  dict_getitem k ((λ kv, (kv.1, f kv.1 kv.2)) <$> d)
  = f k <$> dict_getitem k d.
Proof.
  induction d as [|[k1 v1] d IH]; csimpl; [done|].
  case_decide; [by subst | done].
Qed.

Lemma dict_keys_revalue (f : K → V → V) d :
  dict_keys ((λ kv, (kv.1, f kv.1 kv.2)) <$> d) = dict_keys d.
Proof.
  unfold dict_keys. rewrite <- list_fmap_compose. by apply list_fmap_ext.
Qed.

(** Reading after the items have been filtered by key. *)
Lemma dict_getitem_filter (P : K → Prop)
    `{∀ x, Decision (P x)} `{∀ kv : K * V, Decision (P kv.1)} k d :
  dict_getitem k (filter (λ kv, P kv.1) d)
  = if decide (P k) then dict_getitem k d else None.
Proof.
  induction d as [|[k1 v1] d IH]; [by case_decide|].
  destruct (decide (P k1)) as [HP|HP].
  - rewrite filter_cons_True by done. simpl. rewrite IH.
    destruct (decide (k1 = k)) as [->|Hne]; [by case_decide|done].
  - rewrite filter_cons_False by done. simpl. rewrite IH.
    destruct (decide (k1 = k)) as [->|Hne]; [by case_decide|done].
Qed.

Lemma dict_keys_filter (P : K → Prop)
    `{∀ x, Decision (P x)} `{∀ kv : K * V, Decision (P kv.1)} d :
  dict_keys (filter (λ kv, P kv.1) d) = filter P (dict_keys d).
Proof.
  unfold dict_keys. induction d as [|[k1 v1] d IH]; [done|]. csimpl.
  destruct (decide (P k1)) as [HP|HP].
  - rewrite !filter_cons_True by done. csimpl. by rewrite IH.
  - by rewrite !filter_cons_False by done.
Qed.

Lemma dict_eq_refl `{EqDecision V} d : dict_wf d → dict_eq d d = true.
Proof.
  intros Hd. unfold dict_eq. rewrite bool_decide_eq_true_2 by done. simpl.
  apply forallb_forall. intros [k v] Hin%list_elem_of_In.
  apply bool_decide_eq_true_2. simpl. by apply dict_elem_of_getitem.
Qed.
End update_facts.

(** ** Running the class body *)

Section store_facts.
Context {K V : Type} `{Countable K}.
Implicit Types (σ : gmap ref (pydict K V)) (r b c : ref) (d o : pydict K V).

Lemma py_store_items_run r (kvs : list (K * V)) d σ :
  σ !! r = Some d →
  py_store_items r kvs σ = Some ((), <[r := dict_update d kvs]> σ).
Proof.
  revert d σ. induction kvs as [|[k v] kvs IH]; intros d σ Hr; simpl.
  - unfold py_ret. by rewrite insert_id.
  - unfold py_bind, py_setitem. rewrite Hr.
    rewrite (IH (dict_setitem k v d)) by apply lookup_insert_eq.
    by rewrite insert_insert_eq.
Qed.

Lemma py_update_run r c d o σ :
  σ !! r = Some d → σ !! c = Some o →
  py_update r c σ = Some ((), <[r := dict_update d o]> σ).
Proof.
  intros Hr Hc. unfold py_update, py_bind, py_items. rewrite Hc.
  by apply py_store_items_run.
Qed.

Lemma fresh_ref_unused σ : σ !! fresh (dom σ) = None.
Proof. apply not_elem_of_dom, is_fresh. Qed.

Lemma fresh_ref_ne σ r d : σ !! r = Some d → r ≠ fresh (dom σ).
Proof. intros Hr ->. by rewrite fresh_ref_unused in Hr. Qed.

Lemma py_dict_run c o σ :
  σ !! c = Some o →
  py_dict c σ
  = Some (fresh (dom σ), <[fresh (dom σ) := dict_new o]> σ).
Proof.
  intros Hc. unfold py_dict, py_bind, py_alloc. simpl.
  rewrite (py_update_run _ _ [] o).
  - unfold py_ret. by rewrite insert_insert_eq.
  - apply lookup_insert_eq.
  - rewrite lookup_insert_ne; [done|]. by eapply not_eq_sym, fresh_ref_ne.
Qed.

(** The class body allocates one object and leaves in it the merge of
    the two dictionaries it was given. *)
Lemma DefaultAnsiStyle_body_run b c d o σ :
  σ !! b = Some d → σ !! c = Some o →
  DefaultAnsiStyle_body b c σ
  = Some (fresh (dom σ), <[fresh (dom σ) := merge d o]> σ).
Proof.
  intros Hb Hc. unfold DefaultAnsiStyle_body, py_bind.
  rewrite (py_dict_run b d) by done.
  rewrite (py_update_run _ _ (dict_new d) o).
  - unfold py_ret. by rewrite insert_insert_eq.
  - apply lookup_insert_eq.
  - rewrite lookup_insert_ne; [done|]. by eapply not_eq_sym, fresh_ref_ne.
Qed.
End store_facts.

(** ** Properties of the merged style mapping *)

Section merge_properties.
Context {K V : Type} `{Countable K}.
Implicit Types (k : K) (v : V) (B O : pydict K V).

Lemma merge_unfold B O : merge B O = dict_update (dict_new B) O.
Proof. done. Qed.

Lemma merge_wf B O : dict_wf (merge B O).
Proof. rewrite merge_unfold. apply dict_update_wf, dict_new_wf. Qed.

Lemma merge_getitem k B O :
  dict_wf B → dict_wf O →
  dict_getitem k (merge B O)
  = match dict_getitem k O with
    | Some v => Some v
    | None => dict_getitem k B
    end.
Proof.
  intros HB HO. rewrite merge_unfold, dict_getitem_update by done.
  by rewrite dict_new_id.
Qed.

(** C1. The key set of [merge B O] is the union of the key set of [B]
    and the key set of [O]. *)
Theorem merge_keyset B O :
  dict_keyset (merge B O) = dict_keyset B ∪ dict_keyset O.
Proof.
  rewrite merge_unfold. unfold dict_new. rewrite !dict_keyset_update.
  unfold dict_keyset at 1. simpl. by rewrite (left_id_L ∅ (∪)).
Qed.

(** C2. Every key of the overlay [O] reads in [merge B O] as it reads
    in [O], whether or not the base [B] has the key too. *)
Theorem merge_overlay_wins B O k :
  dict_wf O →
  k ∈ dict_keys O →
  ∃ v, dict_getitem k O = Some v ∧ dict_getitem k (merge B O) = Some v.
Proof.
  intros HO [v Hv]%dict_getitem_is_Some. exists v. split; [done|].
  rewrite merge_unfold, dict_getitem_update by done. by rewrite Hv.
Qed.

(** C3. A key of the base [B] that the overlay [O] does not have reads
    in [merge B O] as it reads in [B]. *)
Theorem merge_base_survives B O k :
  dict_wf B →
  k ∈ dict_keys B →
  k ∉ dict_keys O →
  ∃ v, dict_getitem k B = Some v ∧ dict_getitem k (merge B O) = Some v.
Proof.
  intros HB [v Hv]%dict_getitem_is_Some HkO. exists v. split; [done|].
  rewrite merge_unfold, dict_getitem_update_absent by done.
  by rewrite dict_new_id.
Qed.

(** C4. Merging the overlay [O] a second time changes nothing:
    [merge (merge B O) O] has the items of [merge B O], in the same
    order, and compares equal to it with [==]. *)
Theorem merge_idempotent `{EqDecision V} B O :
  dict_wf O →
  merge (merge B O) O = merge B O
  ∧ dict_eq (merge (merge B O) O) (merge B O) = true.
Proof.
  intros HO.
  assert (merge (merge B O) O = merge B O) as Heq.
  { rewrite (merge_unfold (merge B O)).
    rewrite dict_new_id by apply merge_wf.
    apply dict_update_same. intros k v Hin.
    rewrite merge_unfold, dict_getitem_update by done.
    by rewrite (dict_elem_of_getitem k v O). }
  split; [done|]. rewrite Heq. apply dict_eq_refl, merge_wf.
Qed.

(** C5. With the empty overlay the merge is the base: [merge B {}] has
    the items of [B], in the same order, and compares equal to it. *)
Theorem merge_empty_overlay `{EqDecision V} B :
  dict_wf B →
  merge B [] = B ∧ dict_eq (merge B []) B = true.
Proof.
  intros HB.
  assert (merge B [] = B) as Heq.
  { by rewrite merge_unfold, dict_update_nil, dict_new_id. }
  split; [done|]. rewrite Heq. by apply dict_eq_refl.
Qed.

(** C6. With the empty base the merge is the overlay: [merge {} O] has
    the items of [O], in the same order, and compares equal to it. *)
Theorem merge_empty_base `{EqDecision V} O :
  dict_wf O →
  merge [] O = O ∧ dict_eq (merge [] O) O = true.
Proof.
  intros HO.
  assert (merge [] O = O) as Heq.
  { rewrite merge_unfold. by apply (dict_update_disjoint []). }
  split; [done|]. rewrite Heq. by apply dict_eq_refl.
Qed.

(** C10. The iteration order of [merge B O] is determined: first the
    keys of [B] in the order of [B], each with the value of [O] if [O]
    has the key and with its own value otherwise, then the items of
    [O] whose key is not in [B], in the order of [O]. *)
Theorem merge_items_in_order B O :
  dict_wf B →
  dict_wf O →
  merge B O
  = ((λ kv, (kv.1, default kv.2 (dict_getitem kv.1 O))) <$> B)
    ++ filter (λ kv, kv.1 ∉ dict_keys B) O
  ∧ dict_keys (merge B O)
    = dict_keys B ++ filter (λ k, k ∉ dict_keys B) (dict_keys O).
Proof.
  intros HB HO.
  assert (dict_keys (merge B O)
          = dict_keys B ++ filter (λ k, k ∉ dict_keys B) (dict_keys O))
    as Hkeys.
  { rewrite merge_unfold, dict_keys_update by done.
    by rewrite dict_new_id. }
  split; [|done].
  apply dict_ext; [apply merge_wf | |].
  - rewrite Hkeys, dict_keys_app.
    rewrite (dict_keys_revalue (λ k v, default v (dict_getitem k O))).
    f_equal. symmetry. apply (dict_keys_filter (λ k, k ∉ dict_keys B)).
  - intros k. rewrite merge_getitem, dict_getitem_app by done.
    rewrite (dict_getitem_revalue (λ k v, default v (dict_getitem k O))).
    rewrite (dict_getitem_filter (λ k, k ∉ dict_keys B)).
    destruct (dict_getitem k B) as [vb|] eqn:HkB; simpl.
    + by destruct (dict_getitem k O).
    + apply dict_getitem_None in HkB. rewrite decide_True by done.
      by destruct (dict_getitem k O).
Qed.
End merge_properties.

(** C7. On the dictionaries of the specification's example the merge is
    [{"keyword": "bold red", "comment": "italic gray", "ansi-red": "red"}],
    item for item and under [==]. *)
Theorem merge_example :
  merge exB exO = exR ∧ dict_eq (merge exB exO) exR = true.
Proof. split; reflexivity. Qed.

(** ** The class body: effects and termination *)

Section body_properties.
Context {K V : Type} `{Countable K}.
Implicit Types (σ : gmap ref (pydict K V)) (b c : ref) (B O : pydict K V).

(** C8. Running the class body on a store that holds the base [B] at
    [b] and the overlay [O] at [c] allocates one object at a reference
    that was not in use, fills it with a copy of [B], updates that same
    object in place, and changes nothing else: the final store is the
    initial one with the merge at the new reference, and [b] and [c]
    still hold [B] and [O]. *)
Theorem DefaultAnsiStyle_body_frame σ b c B O :
  σ !! b = Some B →
  σ !! c = Some O →
  ∃ (styles : ref) σ1 σ2,
    σ !! styles = None
    ∧ py_dict b σ = Some (styles, σ1)
    ∧ σ1 = <[styles := dict_new B]> σ
    ∧ py_update styles c σ1 = Some ((), σ2)
    ∧ DefaultAnsiStyle_body b c σ = Some (styles, σ2)
    ∧ σ2 = <[styles := merge B O]> σ
    ∧ σ2 !! b = Some B
    ∧ σ2 !! c = Some O.
Proof.
  intros Hb Hc.
  pose proof (fresh_ref_ne σ b B Hb) as Hnb.
  pose proof (fresh_ref_ne σ c O Hc) as Hnc.
  exists (fresh (dom σ)), (<[fresh (dom σ) := dict_new B]> σ),
    (<[fresh (dom σ) := merge B O]> σ).
  split_and!.
  - apply fresh_ref_unused.
  - by apply py_dict_run.
  - done.
  - rewrite (py_update_run _ _ (dict_new B) O).
    + by rewrite insert_insert_eq.
    + apply lookup_insert_eq.
    + by rewrite lookup_insert_ne.
  - by apply DefaultAnsiStyle_body_run.
  - done.
  - by rewrite lookup_insert_ne.
  - by rewrite lookup_insert_ne.
Qed.

(** C9. Whenever the two input dictionaries exist, the class body runs
    to completion without raising and the object it returns holds the
    merge. *)
Theorem DefaultAnsiStyle_body_total σ b c B O :
  σ !! b = Some B →
  σ !! c = Some O →
  ∃ (styles : ref) σ',
    DefaultAnsiStyle_body b c σ = Some (styles, σ')
    ∧ σ' !! styles = Some (merge B O).
Proof.
  intros Hb Hc. eexists _, _. split.
  - by apply DefaultAnsiStyle_body_run.
  - apply lookup_insert_eq.
Qed.
End body_properties.

(** ** The theorems at the example *)

Lemma merge_overlay_wins_witness :
  dict_wf exO ∧ exk ∈ dict_keys exO
  ∧ ∃ v, dict_getitem exk exO = Some v
         ∧ dict_getitem exk (merge exB exO) = Some v.
Proof.
  split_and!; [compute_done..|].
  apply (merge_overlay_wins exB exO exk); compute_done.
Defined.

Lemma merge_base_survives_witness :
  dict_wf exB ∧ exc ∈ dict_keys exB ∧ (exc ∉ dict_keys exO)
  ∧ ∃ v, dict_getitem exc exB = Some v
         ∧ dict_getitem exc (merge exB exO) = Some v.
Proof.
  split_and!; [compute_done..|].
  apply (merge_base_survives exB exO exc); compute_done.
Defined.

Lemma merge_idempotent_witness :
  dict_wf exO
  ∧ merge (merge exB exO) exO = merge exB exO
  ∧ dict_eq (merge (merge exB exO) exO) (merge exB exO) = true.
Proof.
  split; [compute_done|]. apply (merge_idempotent exB exO); compute_done.
Defined.

Lemma merge_empty_overlay_witness :
  dict_wf exB ∧ merge exB [] = exB ∧ dict_eq (merge exB []) exB = true.
Proof.
  split; [compute_done|]. apply (merge_empty_overlay exB); compute_done.
Defined.

Lemma merge_empty_base_witness :
  dict_wf exO ∧ merge [] exO = exO ∧ dict_eq (merge [] exO) exO = true.
Proof.
  split; [compute_done|]. apply (merge_empty_base exO); compute_done.
Defined.

Lemma merge_items_in_order_witness :
  dict_wf exB ∧ dict_wf exO
  ∧ merge exB exO
    = ((λ kv, (kv.1, default kv.2 (dict_getitem kv.1 exO))) <$> exB)
      ++ filter (λ kv, kv.1 ∉ dict_keys exB) exO
  ∧ dict_keys (merge exB exO)
    = dict_keys exB ++ filter (λ k, k ∉ dict_keys exB) (dict_keys exO).
Proof.
  split_and!; [compute_done..| |];
    apply (merge_items_in_order exB exO); compute_done.
Defined.

Lemma DefaultAnsiStyle_body_frame_witness :
  exS !! 1%positive = Some exB ∧ exS !! 2%positive = Some exO
  ∧ ∃ (styles : ref) σ1 σ2,
      exS !! styles = None
      ∧ py_dict 1%positive exS = Some (styles, σ1)
      ∧ σ1 = <[styles := dict_new exB]> exS
      ∧ py_update styles 2%positive σ1 = Some ((), σ2)
      ∧ DefaultAnsiStyle_body 1%positive 2%positive exS = Some (styles, σ2)
      ∧ σ2 = <[styles := merge exB exO]> exS
      ∧ σ2 !! 1%positive = Some exB
      ∧ σ2 !! 2%positive = Some exO.
Proof.
  split_and!; [reflexivity..|].
  apply (DefaultAnsiStyle_body_frame exS 1 2 exB exO); reflexivity.
Defined.

Lemma DefaultAnsiStyle_body_total_witness :
  exS !! 1%positive = Some exB ∧ exS !! 2%positive = Some exO
  ∧ ∃ (styles : ref) σ',
      DefaultAnsiStyle_body 1%positive 2%positive exS = Some (styles, σ')
      ∧ σ' !! styles = Some (merge exB exO).
Proof.
  split_and!; [reflexivity..|].
  apply (DefaultAnsiStyle_body_total exS 1 2 exB exO); reflexivity.
Defined.

(** ** Further facts about the merged style mapping *)

Section merge_algebra.
Context {K V : Type} `{Countable K}.
Implicit Types (k : K) (v : V) (A B C O d o : pydict K V).

Lemma dict_elem_of_keys k d : k ∈ dict_keys d ↔ k ∈ dict_keyset d.
Proof. unfold dict_keyset. by rewrite elem_of_list_to_set. Qed.

Lemma dict_keys_length d : length (dict_keys d) = length d.
Proof. apply length_fmap. Qed.

Lemma merge_keys B O :
  dict_wf B → dict_wf O →
  dict_keys (merge B O)
  = dict_keys B ++ filter (λ k, k ∉ dict_keys B) (dict_keys O).
Proof.
  intros HB HO. rewrite merge_unfold, dict_keys_update by done.
  by rewrite dict_new_id.
Qed.

Lemma merge_elem_of_keys k B O :
  k ∈ dict_keys (merge B O) ↔ k ∈ dict_keys B ∨ k ∈ dict_keys O.
Proof.
  rewrite !dict_elem_of_keys, merge_unfold. unfold dict_new.
  rewrite !dict_keyset_update, !elem_of_union.
  unfold dict_keyset at 1. simpl. rewrite elem_of_empty. tauto.
Qed.

Lemma dict_setitem_elem_of (x : K * V) k v d :
  x ∈ dict_setitem k v d → x ∈ d ∨ x = (k, v).
Proof.
  induction d as [|[k0 v0] d IH]; simpl.
  - intros ->%list_elem_of_singleton. by right.
  - case_decide; subst; rewrite !elem_of_cons.
    + intros [->|Hx]; [by right | by left; right].
    + intros [->|Hx]; [by left; left|].
      destruct (IH Hx) as [?|?]; [by left; right | by right].
Qed.

Lemma dict_update_elem_of (x : K * V) d o :
  x ∈ dict_update d o → x ∈ d ∨ x ∈ o.
Proof.
  revert d. induction o as [|[k v] o IH]; intros d; [by left|].
  rewrite dict_update_cons. intros [Hx|Hx]%IH.
  - apply dict_setitem_elem_of in Hx as [?| ->]; [by left | right; left].
  - right. by right.
Qed.

Lemma dict_to_map_lookup k d : dict_to_map d !! k = dict_getitem k d.
Proof.
  unfold dict_to_map. induction d as [|[k0 v0] d IH]; [done|].
  rewrite list_to_map_cons, lookup_insert. simpl. by rewrite IH.
Qed.

(** Two dictionaries that read the same under every key are equal
    under [==]. *)
Lemma dict_eq_lookup `{EqDecision V} d o :
  dict_wf d → dict_wf o →
  (∀ k, dict_getitem k d = dict_getitem k o) →
  dict_eq d o = true.
Proof.
  intros Hd Ho Hget. unfold dict_eq. apply andb_true_intro. split.
  - apply bool_decide_eq_true_2.
    rewrite <- (dict_keys_length d), <- (dict_keys_length o).
    apply Permutation_length, NoDup_Permutation; [done..|].
    intros k. by rewrite <- !dict_getitem_is_Some, Hget.
  - apply forallb_forall. intros [k v] Hin%list_elem_of_In.
    apply bool_decide_eq_true_2. simpl. rewrite <- Hget.
    by apply dict_elem_of_getitem.
Qed.

(** X1. Whatever the two item lists, the keys of the merge are pairwise
    distinct: the result is a dictionary. *)
Theorem merge_keys_unique B O : NoDup (dict_keys (merge B O)).
Proof. apply merge_wf. Qed.

(** X2. The merge has the items of the base plus one item for each key
    of the overlay that the base lacks; so it is at least as long as the
    base and at most as long as both together. *)
Theorem merge_length B O :
  dict_wf B →
  dict_wf O →
  length (merge B O)
  = length B + length (filter (λ k, k ∉ dict_keys B) (dict_keys O))
  ∧ length B ≤ length (merge B O) ≤ length B + length O.
Proof.
  intros HB HO.
  assert (length (merge B O)
          = length B + length (filter (λ k, k ∉ dict_keys B) (dict_keys O)))
    as Hlen.
  { rewrite <- (dict_keys_length (merge B O)).
    rewrite merge_keys, length_app by done.
    by rewrite dict_keys_length. }
  split; [done|]. rewrite Hlen.
  pose proof (length_filter (λ k, k ∉ dict_keys B) (dict_keys O)) as Hle.
  rewrite dict_keys_length in Hle. lia.
Qed.

(** X3. Merging is associative: applying the overlay [C] to the merge of
    [A] and [B] gives the same items in the same order as applying to
    [A] the merge of [B] and [C]. *)
Theorem merge_assoc A B C :
  dict_wf A →
  dict_wf B →
  dict_wf C →
  merge (merge A B) C = merge A (merge B C).
Proof.
  intros HA HB HC.
  pose proof (merge_wf A B) as HAB. pose proof (merge_wf B C) as HBC.
  apply dict_ext; [apply merge_wf | |].
  - rewrite !merge_keys by done. rewrite filter_app, <- (assoc_L (++)).
    do 2 f_equal. rewrite list_filter_filter. apply filter_agree.
    intros k _. rewrite elem_of_app, list_elem_of_filter.
    split.
    + intros Hn. split; [by intros ?; apply Hn; left|].
      intros HkB. destruct (decide (k ∈ dict_keys A)) as [HkA|HkA].
      * apply Hn. by left.
      * apply Hn. by right.
    + intros [HnA HnB] [HkA|[_ HkB]]; [by apply HnA | by apply HnB].
  - intros k. rewrite !merge_getitem by done.
    by destruct (dict_getitem k C), (dict_getitem k B).
Qed.

(** X4. An overlay whose items are all stored in the base already
    leaves the base as it is, order included. *)
Theorem merge_covered B O :
  dict_wf B →
  dict_covers B O →
  merge B O = B.
Proof.
  intros HB Hcov. rewrite merge_unfold, dict_new_id by done.
  apply dict_update_same. intros k v Hin.
  unfold dict_covers in Hcov. rewrite Forall_forall in Hcov.
  apply (Hcov (k, v) Hin).
Qed.

(** X5. When base and overlay agree on every key they share, the two
    orders of merging give dictionaries that are equal under [==]. *)
Theorem merge_comm_compatible `{EqDecision V} B O :
  dict_wf B →
  dict_wf O →
  dict_compatible B O →
  dict_eq (merge B O) (merge O B) = true.
Proof.
  intros HB HO Hcomp. apply dict_eq_lookup; [apply merge_wf..|].
  intros k. rewrite !merge_getitem by done.
  destruct (dict_getitem k B) as [vb|] eqn:HkB;
    destruct (dict_getitem k O) as [vo|] eqn:HkO; try done.
  unfold dict_compatible in Hcomp. rewrite Forall_forall in Hcomp.
  apply dict_getitem_elem_of in HkB.
  destruct (Hcomp _ HkB) as [Hn|Hs]; simpl in *; congruence.
Qed.

(** X6. The merge invents nothing: each of its items is an item of the
    base or an item of the overlay. *)
Theorem merge_items_from_inputs B O (x : K * V) :
  x ∈ merge B O → x ∈ B ∨ x ∈ O.
Proof.
  rewrite merge_unfold. intros [Hx|Hx]%dict_update_elem_of; [|by right].
  unfold dict_new in Hx. apply dict_update_elem_of in Hx as [Hx|Hx].
  - by apply elem_of_nil in Hx.
  - by left.
Qed.

(** X7. A key that neither the base nor the overlay has is not in the
    merge: reading it raises [KeyError]. *)
Theorem merge_getitem_missing B O k :
  k ∉ dict_keys B →
  k ∉ dict_keys O →
  dict_getitem k (merge B O) = None.
Proof.
  intros HkB HkO. apply dict_getitem_None.
  rewrite merge_elem_of_keys. tauto.
Qed.

(** X8. As a finite map the merge is the union of the two dictionaries
    in which the overlay has priority. *)
Theorem merge_to_map B O :
  dict_wf B →
  dict_wf O →
  dict_to_map (merge B O) = dict_to_map O ∪ dict_to_map B.
Proof.
  intros HB HO. apply map_eq. intros k.
  rewrite lookup_union, !dict_to_map_lookup, merge_getitem by done.
  by destruct (dict_getitem k O), (dict_getitem k B).
Qed.

(** X9. When no key occurs twice in base and overlay taken together, the
    merge is the items of the base followed by those of the overlay. *)
Theorem merge_disjoint B O :
  dict_wf (B ++ O) →
  merge B O = B ++ O.
Proof.
  intros HBO. rewrite merge_unfold.
  assert (dict_wf B) as HB.
  { unfold dict_wf in *. rewrite dict_keys_app in HBO.
    by apply NoDup_app in HBO as (? & _ & _). }
  rewrite dict_new_id by done. by apply dict_update_disjoint.
Qed.
End merge_algebra.

(** ** The further facts at the example *)

Lemma merge_length_witness :
  dict_wf exB ∧ dict_wf exO
  ∧ length (merge exB exO)
    = length exB + length (filter (λ k, k ∉ dict_keys exB) (dict_keys exO))
  ∧ length exB ≤ length (merge exB exO) ≤ length exB + length exO.
Proof.
  split_and!; [compute_done..| | |];
    apply (merge_length exB exO); compute_done.
Defined.

Lemma merge_assoc_witness :
  dict_wf exB ∧ dict_wf exO ∧ dict_wf exC
  ∧ merge (merge exB exO) exC = merge exB (merge exO exC).
Proof.
  split_and!; [compute_done..|].
  apply (merge_assoc exB exO exC); compute_done.
Defined.

Lemma merge_covered_witness :
  dict_wf exR ∧ dict_covers exR exO ∧ merge exR exO = exR.
Proof.
  split_and!; [compute_done..|].
  apply (merge_covered exR exO); compute_done.
Defined.

Lemma merge_comm_compatible_witness :
  dict_wf exB ∧ dict_wf exD ∧ dict_compatible exB exD
  ∧ dict_eq (merge exB exD) (merge exD exB) = true.
Proof.
  split_and!; [compute_done..|].
  apply (merge_comm_compatible exB exD); compute_done.
Defined.

Lemma merge_items_from_inputs_witness :
  (exk, "bold red") ∈ merge exB exO
  ∧ ((exk, "bold red") ∈ exB ∨ (exk, "bold red") ∈ exO).
Proof.
  split; [compute_done|].
  apply (merge_items_from_inputs exB exO (exk, "bold red")); compute_done.
Defined.

Lemma merge_getitem_missing_witness :
  (exm ∉ dict_keys exB) ∧ (exm ∉ dict_keys exO)
  ∧ dict_getitem exm (merge exB exO) = None.
Proof.
  split_and!; [compute_done..|].
  apply (merge_getitem_missing exB exO exm); compute_done.
Defined.

Lemma merge_to_map_witness :
  dict_wf exB ∧ dict_wf exO
  ∧ dict_to_map (merge exB exO) = dict_to_map exO ∪ dict_to_map exB.
Proof.
  split_and!; [compute_done..|].
  apply (merge_to_map exB exO); compute_done.
Defined.

Lemma merge_disjoint_witness :
  dict_wf (exB ++ exE) ∧ merge exB exE = exB ++ exE.
Proof.
  split; [compute_done|]. apply (merge_disjoint exB exE); compute_done.
Defined.

(** ** The result is an object of its own *)

Section body_aliasing.
Context {K V : Type} `{Countable K}.
Implicit Types (σ : gmap ref (pydict K V)) (b c : ref) (B O : pydict K V).

(** X10. The dictionary bound to [styles] shares nothing with the
    inherited one: a store into it after the class body has run changes
    that object only, and the base at [b] and the overlay at [c] still
    hold [B] and [O]. *)
Theorem DefaultAnsiStyle_styles_not_aliased σ b c B O (k : K) (v : V) :
  σ !! b = Some B →
  σ !! c = Some O →
  ∃ (styles : ref) σ',
    py_bind (DefaultAnsiStyle_body b c)
      (λ styles, py_bind (py_setitem styles k v) (λ _, py_ret styles)) σ
    = Some (styles, σ')
    ∧ styles ≠ b
    ∧ styles ≠ c
    ∧ σ' !! styles = Some (dict_setitem k v (merge B O))
    ∧ σ' !! b = Some B
    ∧ σ' !! c = Some O.
Proof.
  intros Hb Hc.
  pose proof (fresh_ref_ne σ b B Hb) as Hnb.
  pose proof (fresh_ref_ne σ c O Hc) as Hnc.
  exists (fresh (dom σ)),
    (<[fresh (dom σ) := dict_setitem k v (merge B O)]> σ).
  split_and!; [|done|done| | |].
  - unfold py_bind at 1. rewrite (DefaultAnsiStyle_body_run b c B O) by done.
    unfold py_bind, py_setitem, py_ret. rewrite lookup_insert_eq.
    by rewrite insert_insert_eq.
  - apply lookup_insert_eq.
  - by rewrite lookup_insert_ne.
  - by rewrite lookup_insert_ne.
Qed.
End body_aliasing.

Lemma DefaultAnsiStyle_styles_not_aliased_witness :
  exS !! 1%positive = Some exB ∧ exS !! 2%positive = Some exO
  ∧ ∃ (styles : ref) σ',
      py_bind (DefaultAnsiStyle_body 1%positive 2%positive)
        (λ styles, py_bind (py_setitem styles exm "") (λ _, py_ret styles))
        exS
      = Some (styles, σ')
      ∧ styles ≠ 1%positive
      ∧ styles ≠ 2%positive
      ∧ σ' !! styles = Some (dict_setitem exm "" (merge exB exO))
      ∧ σ' !! 1%positive = Some exB
      ∧ σ' !! 2%positive = Some exO.
Proof.
  split_and!; [reflexivity..|].
  apply (DefaultAnsiStyle_styles_not_aliased exS 1 2 exB exO exm "");
    reflexivity.
Defined.
